(** * The notification de-duplication cache of calendarbot

    A shallow embedding of the in-memory event cache of [calendarbot.go]
    ([memoryCache], its methods [Add] and [Get], the error values they return
    and the generic miss check [IsCacheMiss]), followed by the properties of
    the cache that the specification states. The rest of [calendarbot.go],
    the two notifiers and the posting to Slack, is embedded after the cache
    over a description of the services it calls, and its properties come
    last.

    Modelling decisions, each taken from the source:
    - [map[string]cacheEntry] is a [gmap string cacheEntry];
    - every method body runs under [c.mutex] from its first to its last
      statement, so a call is one atomic state transformer on the map; the
      mutex itself carries no data and is not represented;
    - [time.Now()] is read at most once on every path through [Add] and
      [Get]; the reading is the argument [now] of the embedded method;
    - an instant is an integer count of nanoseconds and a [time.Duration] an
      integer number of nanoseconds; the saturation that package [time]
      applies at the ends of its range is outside this repository;
    - a Go interface value is either [nil] or a dynamic value described by
      its dynamic type and its method set, which is what a type assertion
      to an interface type inspects. *)

From Stdlib Require Import ZArith.
From Stdlib.Strings Require Import Byte.
From stdpp Require Import gmap strings.

Local Open Scope string_scope.
Local Open Scope Z_scope.

(** ** Package [time] *)

Module time.

Definition Time : Type := Z.
Definition Duration : Type := Z.

Definition Nanosecond : Duration := 1.
Definition Second : Duration := 1000000000 * Nanosecond.
Definition Minute : Duration := 60 * Second.

(** [t.Before(u)]: the instant [t] is strictly earlier than [u]. *)
Definition Before (t u : Time) : bool := Z.ltb t u.

(** [t.Add(d)] *)
Definition Add (t : Time) (d : Duration) : Time := t + d.

End time.

(** ** Interface values and errors *)

(** The result of calling a method without arguments on a fixed value, by
    the shape of its signature. *)
Inductive method : Type :=
  | boolMethod (result : bool)       (* func() bool *)
  | stringMethod (result : string)   (* func() string *)
  | otherMethod.                     (* any other signature *)

(** A non-nil interface value: its dynamic type and that type's method set,
    keyed by method name. *)
Record dynValue : Type := mkDyn {
  dynType : string;
  methodSet : gmap string method
}.

(** A value of interface type [error]; [None] is [nil]. *)
Definition error : Type := option dynValue.

(** [type cacheMissError struct{}] with its two methods, [IsCacheMiss] and
    [Error]. *)
Definition cacheMissError : dynValue :=
  mkDyn "calendarbot.cacheMissError"
        (<["IsCacheMiss" := boolMethod true]>
           (<["Error" := stringMethod "cache miss"]> ∅)).

Module errors.

(** [errors.New(msg)] of github.com/pkg/errors: a [*fundamental], whose
    method set is [Error], [Format] and the promoted [StackTrace]. *)
Definition New (msg : string) : dynValue :=
  mkDyn "*errors.fundamental"
        (<["Error" := stringMethod msg]>
           (<["Format" := otherMethod]>
              (<["StackTrace" := otherMethod]> ∅))).

(** [errors.Wrap(err, msg)], for a non-nil [err]: a [*withStack] around a
    [*withMessage]; method set [Error], [Cause], [Format], [StackTrace]. *)
Definition Wrap (err : dynValue) (msg : string) : dynValue :=
  mkDyn "*errors.withStack"
        (<["Error" :=
             match methodSet err !! "Error" with
             | Some (stringMethod s) => stringMethod (msg ++ ": " ++ s)
             | _ => stringMethod msg
             end]>
           (<["Cause" := otherMethod]>
              (<["Format" := otherMethod]>
                 (<["StackTrace" := otherMethod]> ∅)))).

End errors.

(** [type cacheError interface { CacheMiss() bool }]: the type assertion
    [err.(cacheError)] succeeds exactly when [err] is not [nil] and the method
    set of its dynamic type has a method [CacheMiss] of type [func() bool];
    the asserted value then answers [CacheMiss()]. *)
Definition assert_cacheError (err : error) : option bool :=
  match err with
  | None => None
  | Some v =>
      match methodSet v !! "CacheMiss" with
      | Some (boolMethod r) => Some r
      | _ => None
      end
  end.

Definition IsCacheMiss (err : error) : bool :=
  match assert_cacheError err with
  | Some r => r
  | None => false
  end.

(** A dynamic value has the cache-miss capability when its method set has
    [CacheMiss() bool], the one method of interface [cacheError]. *)
Definition implements_cacheError (v : dynValue) : Prop :=
  ∃ r, methodSet v !! "CacheMiss" = Some (boolMethod r).

(** ** The cache *)

Record cacheEntry : Type := mkEntry {
  Value : list byte;
  Expires : time.Time
}.

Record memoryCache : Type := mkCache {
  data : gmap string cacheEntry
}.

Definition newMemoryCache : memoryCache := mkCache ∅.

(** A method with receiver [c *memoryCache] is a state transformer on the
    cache it points to. *)
Definition cacheM (A : Type) : Type := memoryCache → A * memoryCache.

#[export] Instance cacheM_ret : MRet cacheM := λ A a c, (a, c).
#[export] Instance cacheM_bind : MBind cacheM :=
  λ A B f m c, let '(a, c') := m c in f a c'.

(** [e, ok := c.data[key]] *)
Definition index (key : string) : cacheM (option cacheEntry) :=
  λ c, (data c !! key, c).

(** [delete(c.data, key)] *)
Definition remove (key : string) : cacheM unit :=
  λ c, (tt, mkCache (delete key (data c))).

(** [c.data[key] = e] *)
Definition assign (key : string) (e : cacheEntry) : cacheM unit :=
  λ c, (tt, mkCache (<[key := e]> (data c))).

(** [func (c *memoryCache) Add(_, key, val, expires) error] *)
Definition Add (now : time.Time) (key : string) (val : list byte)
    (expires : time.Duration) : cacheM error :=
  r ← index key;
  match r with
  | Some e =>
      (if time.Before (Expires e) now then remove key else mret tt) ;;
      mret (Some (errors.New "entry exists"))
  | None =>
      assign key (mkEntry val (time.Add now expires)) ;;
      mret None
  end.

(** [func (c *memoryCache) Get(_, key) (interface{}, error)]; the first
    component is [nil] or the [cacheEntry] found. *)
Definition Get (now : time.Time) (key : string)
    : cacheM (option cacheEntry * error) :=
  r ← index key;
  match r with
  | None => mret (None, Some cacheMissError)
  | Some e =>
      if time.Before (Expires e) now
      then remove key ;; mret (None, Some cacheMissError)
      else mret (Some e, None)
  end.

(** ** The caller's dispatch on the result of [Get]

    The [switch] at the head of the loop of [NotifyIndividualEvents]. *)
Inductive dispatch : Type :=
  | skipEvent                     (* case err == nil: continue *)
  | processEvent                  (* case IsCacheMiss(err): fall out of the switch *)
  | abortRun (wrapped : dynValue). (* case err != nil: return errors.Wrap(...) *)

Definition dispatchGet (err : error) : dispatch :=
  match err with
  | None => skipEvent
  | Some v =>
      if IsCacheMiss err then processEvent
      else abortRun (errors.Wrap v "failed to communicate with cache")
  end.

(** ** Predicates used in the statements *)

(** After an operation at clock reading [now], key [k] is absent or holds an
    entry that [Before] does not find expired at [now]. *)
Definition absent_or_live (now : time.Time) (k : string) (c : memoryCache)
    : Prop :=
  data c !! k = None
  ∨ ∃ e, data c !! k = Some e ∧ time.Before (Expires e) now = false.

Local Open Scope list_scope.

(** ** Sequences of calls on one cache

    What a client of the cache does over time: a list of [Add] and [Get]
    calls, each with the clock reading it observes, run in order on the same
    [*memoryCache]. *)
Inductive call : Type :=
  | callAdd (now : time.Time) (key : string) (val : list byte)
            (expires : time.Duration)
  | callGet (now : time.Time) (key : string).

Definition callKey (o : call) : string :=
  match o with
  | callAdd _ key _ _ => key
  | callGet _ key => key
  end.

Definition callTime (o : call) : time.Time :=
  match o with
  | callAdd now _ _ _ => now
  | callGet now _ => now
  end.

(** One call and what it returns; [Add] returns no value. *)
Definition perform (o : call) : cacheM (option cacheEntry * error) :=
  match o with
  | callAdd now key val expires =>
      err ← Add now key val expires; mret (None, err)
  | callGet now key => Get now key
  end.

(** The calls of a list in order; the results are listed in the same
    order. *)
Fixpoint run (calls : list call) : cacheM (list (option cacheEntry * error)) :=
  match calls with
  | [] => mret []
  | o :: rest => r ← perform o; rs ← run rest; mret (r :: rs)
  end.

(** What a call does to the entry under its own key, and what it returns,
    as functions of the entry found there. *)
Definition callEffect (o : call) (found : option cacheEntry)
    : option cacheEntry :=
  match found, o with
  | Some e, _ => if time.Before (Expires e) (callTime o) then None else Some e
  | None, callAdd now _ val expires =>
      Some (mkEntry val (time.Add now expires))
  | None, callGet _ _ => None
  end.

Definition callResult (o : call) (found : option cacheEntry)
    : option cacheEntry * error :=
  match o, found with
  | callAdd _ _ _ _, Some _ => (None, Some (errors.New "entry exists"))
  | callAdd _ _ _ _, None => (None, None)
  | callGet now _, Some e =>
      if time.Before (Expires e) now then (None, Some cacheMissError)
      else (Some e, None)
  | callGet _ _, None => (None, Some cacheMissError)
  end.

(** ** Calls that return a value and an error

    The callers below test [err != nil] before they touch the value, so a
    pair [(value, err)] is read as one of two cases. *)
Inductive result (A : Type) : Type :=
  | ok (a : A)
  | failed (err : dynValue).

Arguments ok {A} a.
Arguments failed {A} err.

(** [errors.Wrap(err, msg)] for an [err] that may be [nil]: [Wrap] answers
    [nil] to [nil]. *)
Definition errors_Wrap (err : error) (msg : string) : error :=
  (λ v, errors.Wrap v msg) <$> err.

(** ** Package [slack], as far as the bot uses it *)

Module slack.

(** [slack.Channel] and [slack.Group]: the two fields [channelID] reads. *)
Record Channel : Type := mkChannel {
  ID : string;
  Name : string
}.

Record AttachmentField : Type := mkField {
  Title : string;
  Value : string
}.

(** [slack.Attachment]; its field [Title] is [AttachmentTitle] here. *)
Record Attachment : Type := mkAttachment {
  Fallback : string;
  Fields : list AttachmentField;
  ThumbURL : string;
  AttachmentTitle : string;
  TitleLink : string
}.

(** [slack.PostMessageParameters]: the fields the bot sets on top of
    [NewPostMessageParameters()]. *)
Record PostMessageParameters : Type := mkParams {
  Username : string;
  Attachments : list Attachment
}.

(** A [*slack.Client] together with what the Slack server answers it.
    [postSlack] makes a new client for every message and calls each method
    at most once on it, so one answer per method describes the server. *)
Record Client : Type := mkClient {
  AuthTest : error;
  GetChannels : result (list Channel);
  GetGroups : result (list Channel);
  PostMessage : string → string → PostMessageParameters → error
}.

End slack.

(** One call of [PostMessage]: its three arguments. The list of these calls,
    oldest first, is the state that posting changes. *)
Record sent : Type := mkSent {
  toChannel : string;
  text : string;
  params : slack.PostMessageParameters
}.

(** [for _, ch := range channels { if ch.Name == channelName { return ch.ID, nil } }] *)
Fixpoint findName (channelName : string) (channels : list slack.Channel)
    : option string :=
  match channels with
  | [] => None
  | ch :: rest =>
      if decide (slack.Name ch = channelName) then Some (slack.ID ch)
      else findName channelName rest
  end.

(** [func channelID(slackcl *slack.Client, channelName string) (string, error)] *)
Definition channelID (slackcl : slack.Client) (channelName : string)
    : string * error :=
  match slack.GetChannels slackcl with
  | failed err => ("", Some (errors.Wrap err "failed to get channel list"))
  | ok channels =>
      match findName channelName channels with
      | Some id => (id, None)
      | None =>
          match slack.GetGroups slackcl with
          | failed err =>
              ("", Some (errors.Wrap err "failed to get group list"))
          | ok groups =>
              match findName channelName groups with
              | Some id => (id, None)
              | None =>
                  ("", Some (errors.New "failed to find matching channel/group"))
              end
          end
      end
  end.

(** [func slackClient(ctx, token string)], which returns the client or an
    error; [NewSlackClient] is the constructor of the build in use. *)
Definition slackClient (NewSlackClient : string → slack.Client)
    (token : string) : result slack.Client :=
  let slackcl := NewSlackClient token in
  match slack.AuthTest slackcl with
  | Some err => failed (errors.Wrap err "slack authentication test failed")
  | None => ok slackcl
  end.

(** [func postSlack(ctx, token, channel, txt string, params) error] *)
Definition postSlack (NewSlackClient : string → slack.Client)
    (token channel txt : string) (params : slack.PostMessageParameters)
    (outbox : list sent) : error * list sent :=
  match slackClient NewSlackClient token with
  | failed err =>
      (Some (errors.Wrap err "failed to create and authenticate slack client"),
       outbox)
  | ok slackcl =>
      match channelID slackcl channel with
      | (_, Some err) =>
          (Some (errors.Wrap err "failed to find channel ID"), outbox)
      | (chID, None) =>
          (errors_Wrap (slack.PostMessage slackcl chID txt params)
                       "failed to post slack message",
           outbox ++ [mkSent chID txt params])
      end
  end.

(** ** Package [calendar] and the world outside the bot *)

Module calendar.

(** [calendar.Event]: the fields the bot reads. [StartDateTime] and
    [EndDateTime] are [event.Start.DateTime] and [event.End.DateTime], for
    events whose [Start] and [End] are not nil, as the bot assumes. *)
Record Event : Type := mkEvent {
  Id : string;
  Summary : string;
  Description : string;
  HtmlLink : string;
  StartDateTime : string;
  EndDateTime : string
}.

End calendar.

(** [time.RFC3339] *)
Definition time_RFC3339 : string := "2006-01-02T15:04:05Z07:00".

(** What the bot calls and does not define: the Google calendar client, the
    parsing and formatting of package [time], the formatting of a number of
    minutes, and the Slack client constructor. A Slack client is made once
    per message; the number given to [NewSlackClient] is the position, in the
    list of events, of the event for which it is made, since the server need
    not answer the same way twice. *)
Class World : Type := {
  Token : Type;
  Config : Type;
  Service : Type;
  (** [calendar.New(config.Client(ctx, token))] *)
  calendar_New : Config → Token → result Service;
  (** [s.Events.List(id).TimeMin(min).TimeMax(max).SingleEvents(single)],
      with [.OrderBy(order)] when [order] is given, then [.Do()]; the
      result is [events.Items] *)
  Events_List : Service → string → string → string → bool → option string
                → result (list calendar.Event);
  (** [time.Parse(layout, value)] *)
  time_Parse : string → string → result time.Time;
  (** [t.Format(layout)] *)
  time_Format : time.Time → string → string;
  (** [fmt.Sprintf("This event starts in %d minutes", int(d.Minutes()))] *)
  startsIn : time.Duration → string;
  NewSlackClient : nat → string → slack.Client
}.

(** [type EventCache interface]: [Add] and [Get] on a cache whose state has
    type [St]. *)
Class EventCache (St : Type) : Type := {
  cacheValue : Type;
  cache_Add : string → list byte → time.Duration → St → error * St;
  cache_Get : string → St → (option cacheValue * error) * St
}.




Section bot.

Context {W : World}.

(** [type Bot struct], without its field [Cache]: the cache is the state the
    methods change and is passed beside the bot. The two providers are given
    by what their one method returns. *)
Record Bot : Type := mkBot {
  CalendarName : string;
  Email : string;
  OAuth2Config : result Config;
  OAuth2Token : result Token;
  SlackChannel : string;
  SlackThumbURL : string;
  SlackToken : string;
  SlackUsername : string
}.

(** [func (b *Bot) CalendarService(ctx)] *)
Definition CalendarService (b : Bot) : result Service :=
  match OAuth2Token b with
  | failed err => failed (errors.Wrap err "failed to load OAuth2 token")
  | ok token =>
      match OAuth2Config b with
      | failed err => failed (errors.Wrap err "failed to load OAuth2 config")
      | ok config =>
          match calendar_New config token with
          | failed err =>
              failed (errors.Wrap err "failed to create google calendar service")
          | ok s => ok s
          end
      end
  end.

(** The message parameters built for one event in [NotifyIndividualEvents]:
    a field for the start time, a field for the description when it is not
    empty, in one attachment. *)
Definition individualParams (b : Bot) (event : calendar.Event)
    (t : time.Time) : slack.PostMessageParameters :=
  let fields :=
    [slack.mkField "Start Time" (time_Format t "15:04")]
    ++ (if decide (calendar.Description event = "") then []
        else [slack.mkField "Description" (calendar.Description event)]) in
  slack.mkParams (SlackUsername b)
    [slack.mkAttachment (calendar.Summary event) fields (SlackThumbURL b)
       (calendar.Summary event) (calendar.HtmlLink event)].

(** The loop of [NotifyIndividualEvents] over [events.Items], from the event
    at position [i] on. The result is the error returned, the state of the
    cache and the calls of [PostMessage] made so far. *)
Fixpoint individualLoop {St : Type} {C : EventCache St} (b : Bot)
    (now : time.Time) (i : nat) (events : list calendar.Event)
    (cache : St) (outbox : list sent) : error * (St * list sent) :=
  match events with
  | [] => (None, (cache, outbox))
  | event :: rest =>
      let '((_, err), cache) := cache_Get (calendar.Id event) cache in
      match dispatchGet err with
      | skipEvent => individualLoop b now (S i) rest cache outbox
      | abortRun wrapped => (Some wrapped, (cache, outbox))
      | processEvent =>
          match time_Parse time_RFC3339 (calendar.StartDateTime event) with
          | failed perr =>
              (Some (errors.Wrap perr "failed to parse event start time"),
               (cache, outbox))
          | ok t =>
              let diff := t - now in
              if diff <? 0 then
                let '(_, cache) :=
                  cache_Add (calendar.Id event) [x01%byte]
                            (15 * time.Minute) cache in
                individualLoop b now (S i) rest cache outbox
              else
                let '(perr, outbox) :=
                  postSlack (NewSlackClient i) (SlackToken b) (SlackChannel b)
                            (startsIn diff) (individualParams b event t)
                            outbox in
                match perr with
                | Some err =>
                    (Some (errors.Wrap err "failed to post message to slack"),
                     (cache, outbox))
                | None =>
                    let '(_, cache) :=
                      cache_Add (calendar.Id event) [x01%byte]
                                (15 * time.Minute) cache in
                    individualLoop b now (S i) rest cache outbox
                end
          end
      end
  end.

(** [func (b *Bot) NotifyIndividualEvents(ctx, t, delta)]; [now] is the
    reading of [time.Now()] taken before the loop. *)
Definition NotifyIndividualEvents {St : Type} {C : EventCache St} (b : Bot)
    (t : time.Time) (delta : time.Duration) (now : time.Time)
    (cache : St) (outbox : list sent) : error * (St * list sent) :=
  match CalendarService b with
  | failed err =>
      (Some (errors.Wrap err "failed to create calendar service"),
       (cache, outbox))
  | ok s =>
      let start := time_Format t time_RFC3339 in
      let end_ := time_Format (time.Add t delta) time_RFC3339 in
      match Events_List s "primary" start end_ true None with
      | failed err =>
          (Some (errors.Wrap err "failed to list events"), (cache, outbox))
      | ok events => individualLoop b now 0 events cache outbox
      end
  end.

(** The attachment field of one event in [NotifyUpcomingEvents]:
    [fmt.Fprintf(&buf, "%s-%s: <%s|%s>", ...)] into an emptied buffer, and
    [slack.AttachmentField{Value: buf.String()}]. *)
Definition upcomingField (event : calendar.Event) (t1 t2 : time.Time)
    : slack.AttachmentField :=
  slack.mkField ""
    (String.concat ""
       [time_Format t1 "15:04"; "-"; time_Format t2 "15:04"; ": <";
        calendar.HtmlLink event; "|"; calendar.Summary event; ">"]).

(** The first loop of [NotifyUpcomingEvents]: one attachment field per
    event, or the error of the first event whose start or end does not
    parse. *)
Fixpoint upcomingFields (events : list calendar.Event)
    : result (list slack.AttachmentField) :=
  match events with
  | [] => ok []
  | event :: rest =>
      match time_Parse time_RFC3339 (calendar.StartDateTime event) with
      | failed err => failed (errors.Wrap err "failed to parse start date/time")
      | ok t1 =>
          match time_Parse time_RFC3339 (calendar.EndDateTime event) with
          | failed err =>
              failed (errors.Wrap err "failed to parse end date/time")
          | ok t2 =>
              match upcomingFields rest with
              | failed err => failed err
              | ok fields => ok (upcomingField event t1 t2 :: fields)
              end
          end
      end
  end.

(** The parameters of the one message of [NotifyUpcomingEvents]. *)
Definition upcomingParams (b : Bot) (t : time.Time) (delta : time.Duration)
    (fields : list slack.AttachmentField) : slack.PostMessageParameters :=
  let title :=
    String.concat ""
      ["Upcoming events between "; time_Format t "2006 Jan 02 15:04";
       " to "; time_Format (time.Add t delta) "2006 Jan 02 15:04"] in
  slack.mkParams (SlackUsername b)
    [slack.mkAttachment title fields (SlackThumbURL b) title ""].

(** [func (b *Bot) NotifyUpcomingEvents(ctx, t, delta)] *)
Definition NotifyUpcomingEvents (b : Bot) (t : time.Time)
    (delta : time.Duration) (outbox : list sent) : error * list sent :=
  match CalendarService b with
  | failed err =>
      (Some (errors.Wrap err "failed to create calendar service"), outbox)
  | ok s =>
      let start := time_Format t time_RFC3339 in
      let end_ := time_Format (time.Add t delta) time_RFC3339 in
      match Events_List s (CalendarName b) start end_ true (Some "startTime")
      with
      | failed err => (Some (errors.Wrap err "failed to list events"), outbox)
      | ok events =>
          if decide (length events = 0%nat) then (None, outbox)
          else
            match upcomingFields events with
            | failed err => (Some err, outbox)
            | ok fields =>
                let '(perr, outbox) :=
                  postSlack (NewSlackClient 0) (SlackToken b) (SlackChannel b)
                            "" (upcomingParams b t delta fields) outbox in
                (errors_Wrap perr "failed to post message to slack", outbox)
            end
      end
  end.

End bot.

(** ** A small world for the examples

    Two events are on the primary calendar and none on any other; a date
    parses unless it is empty; Slack knows one channel, [general]. *)
Definition demoEvents : list calendar.Event :=
  [calendar.mkEvent "evt1" "Standup" "" "http://cal/evt1"
     "2016-08-01T10:00:00Z" "2016-08-01T10:15:00Z";
   calendar.mkEvent "evt2" "Review" "Quarterly" "http://cal/evt2"
     "2016-08-01T11:00:00Z" "2016-08-01T12:00:00Z"].

Definition demoClient : slack.Client :=
  slack.mkClient None (ok [slack.mkChannel "C1" "general"]) (ok [])
                 (λ _ _ _, None).

Definition demoWorld : World :=
  {| Token := unit;
     Config := unit;
     Service := unit;
     calendar_New := λ _ _, ok tt;
     Events_List := λ _ id _ _ _ _,
       if decide (id = "primary") then ok demoEvents else ok [];
     time_Parse := λ _ value,
       if decide (value = "") then failed (errors.New "cannot parse")
       else ok (Z.of_nat (String.length value));
     time_Format := λ _ layout, layout;
     startsIn := λ _, "This event starts in 5 minutes";
     NewSlackClient := λ _ _, demoClient |}.

Definition demoBot (calendarName : string) : @Bot demoWorld :=
  @mkBot demoWorld calendarName "bot@example.com" (ok tt) (ok tt) "general"
         "" "token" "calendarbot".

(** A cache for the examples that holds nothing: every [Get] fails with an
    error whose method set has [CacheMiss() bool], answering [true]. *)
Definition alwaysMissCache : EventCache unit :=
  {| cacheValue := unit;
     cache_Add := λ _ _ _ st, (None, st);
     cache_Get := λ _ st,
       ((None,
         Some (mkDyn "demo.missError"
                 (<["CacheMiss" := boolMethod true]>
                    (<["Error" := stringMethod "miss"]> ∅)))), st) |}.

(** ** Equations of the two methods, one per path through the body *)

Ltac run_cache :=
  unfold Add, Get, index, remove, assign;
  unfold mbind, mret, cacheM_bind, cacheM_ret; simpl.

Lemma Before_true (t u : time.Time) : time.Before t u = true ↔ t < u.
Proof. unfold time.Before. apply Z.ltb_lt. Qed.

Lemma Before_false (t u : time.Time) : time.Before t u = false ↔ u ≤ t.
Proof. unfold time.Before. apply Z.ltb_ge. Qed.

Section paths.

Variables (c : memoryCache) (now : time.Time) (key : string).

Lemma Add_absent (val : list byte) (expires : time.Duration) :
  data c !! key = None →
  Add now key val expires c
  = (None, mkCache (<[key := mkEntry val (now + expires)]> (data c))).
Proof. intros Hk. run_cache. by rewrite Hk. Qed.

Lemma Add_present_live (e : cacheEntry) (val : list byte)
    (expires : time.Duration) :
  data c !! key = Some e → now ≤ Expires e →
  Add now key val expires c = (Some (errors.New "entry exists"), c).
Proof.
  intros Hk Hlive. apply Before_false in Hlive.
  run_cache. by rewrite Hk, Hlive.
Qed.

Lemma Add_present_expired (e : cacheEntry) (val : list byte)
    (expires : time.Duration) :
  data c !! key = Some e → Expires e < now →
  Add now key val expires c
  = (Some (errors.New "entry exists"), mkCache (delete key (data c))).
Proof.
  intros Hk Hold. apply Before_true in Hold.
  run_cache. by rewrite Hk, Hold.
Qed.

Lemma Get_absent :
  data c !! key = None →
  Get now key c = ((None, Some cacheMissError), c).
Proof. intros Hk. run_cache. by rewrite Hk. Qed.

Lemma Get_present_live (e : cacheEntry) :
  data c !! key = Some e → now ≤ Expires e →
  Get now key c = ((Some e, None), c).
Proof.
  intros Hk Hlive. apply Before_false in Hlive.
  run_cache. by rewrite Hk, Hlive.
Qed.

Lemma Get_present_expired (e : cacheEntry) :
  data c !! key = Some e → Expires e < now →
  Get now key c
  = ((None, Some cacheMissError), mkCache (delete key (data c))).
Proof.
  intros Hk Hold. apply Before_true in Hold.
  run_cache. by rewrite Hk, Hold.
Qed.

End paths.

(** The three paths of [Get] cover every cache, key and clock reading. *)
Lemma Get_cases (c : memoryCache) (now : time.Time) (key : string) :
  (data c !! key = None ∧ Get now key c = ((None, Some cacheMissError), c))
  ∨ (∃ e, data c !! key = Some e ∧ Expires e < now
        ∧ Get now key c
          = ((None, Some cacheMissError), mkCache (delete key (data c))))
  ∨ (∃ e, data c !! key = Some e ∧ now ≤ Expires e
        ∧ Get now key c = ((Some e, None), c)).
Proof.
  destruct (data c !! key) as [e|] eqn:Hk.
  - destruct (Z.lt_ge_cases (Expires e) now) as [Hold|Hlive].
    + right; left. exists e. eauto using Get_present_expired.
    + right; right. exists e. eauto using Get_present_live.
  - left. eauto using Get_absent.
Qed.

(** Likewise for [Add]. *)
Lemma Add_cases (c : memoryCache) (now : time.Time) (key : string)
    (val : list byte) (expires : time.Duration) :
  (data c !! key = None
     ∧ Add now key val expires c
       = (None, mkCache (<[key := mkEntry val (now + expires)]> (data c))))
  ∨ (∃ e, data c !! key = Some e ∧ Expires e < now
        ∧ Add now key val expires c
          = (Some (errors.New "entry exists"),
             mkCache (delete key (data c))))
  ∨ (∃ e, data c !! key = Some e ∧ now ≤ Expires e
        ∧ Add now key val expires c
          = (Some (errors.New "entry exists"), c)).
Proof.
  destruct (data c !! key) as [e|] eqn:Hk.
  - destruct (Z.lt_ge_cases (Expires e) now) as [Hold|Hlive].
    + right; left. exists e. eauto using Add_present_expired.
    + right; right. exists e. eauto using Add_present_live.
  - left. eauto using Add_absent.
Qed.

(** Neither error value of the cache has a method named [CacheMiss]. *)
Lemma cacheMissError_methods :
  methodSet cacheMissError !! "CacheMiss" = None.
Proof. reflexivity. Qed.

Lemma New_methods (msg : string) :
  methodSet (errors.New msg) !! "CacheMiss" = None.
Proof. reflexivity. Qed.

Lemma Wrap_methods (err : dynValue) (msg : string) :
  methodSet (errors.Wrap err msg) !! "CacheMiss" = None.
Proof. reflexivity. Qed.

(** ** The miss check on the errors of the cache *)

(** C1. The claim is that [IsCacheMiss] answers [true] on the error that
    [Get] returns for an absent or expired key. The code answers [false]:
    [cacheMissError] declares [IsCacheMiss() bool] while interface
    [cacheError] asks for [CacheMiss() bool], so the type assertion in
    [IsCacheMiss] fails on it. Hence [IsCacheMiss] is [false] on the error of
    every [Get], and the caller's switch aborts the run on a miss instead of
    processing the event. *)
Theorem IsCacheMiss_false_on_Get_error :
  methodSet cacheMissError !! "CacheMiss" = None
  ∧ methodSet cacheMissError !! "IsCacheMiss" = Some (boolMethod true)
  ∧ IsCacheMiss (Some cacheMissError) = false
  ∧ (∀ (c : memoryCache) (now : time.Time) (key : string),
       IsCacheMiss (Get now key c).1.2 = false)
  ∧ (Get 0 "evt1" newMemoryCache).1.2 = Some cacheMissError
  ∧ dispatchGet (Get 0 "evt1" newMemoryCache).1.2
    = abortRun (errors.Wrap cacheMissError "failed to communicate with cache").
Proof.
  split; [| split; [| split; [| split; [| split]]]].
  - apply cacheMissError_methods.
  - reflexivity.
  - reflexivity.
  - intros c now key.
    destruct (Get_cases c now key) as [[_ ->]|[(e & _ & _ & ->)|(e & _ & _ & ->)]];
      reflexivity.
  - reflexivity.
  - reflexivity.
Qed.

(** C9. An error without the cache-miss capability is never classified as a
    miss: [IsCacheMiss] is [false] on every error value whose method set
    lacks [CacheMiss() bool], on [nil], on every error made by [errors.New]
    (the entry-exists error among them) or [errors.Wrap], and so on every
    error that [Add] returns. *)
Theorem IsCacheMiss_false_without_capability :
  (∀ err : error,
     (∀ v, err = Some v → ¬ implements_cacheError v) →
     IsCacheMiss err = false)
  ∧ IsCacheMiss None = false
  ∧ (∀ msg, IsCacheMiss (Some (errors.New msg)) = false)
  ∧ (∀ v msg, IsCacheMiss (Some (errors.Wrap v msg)) = false)
  ∧ (∀ (c : memoryCache) (now : time.Time) (key : string) (val : list byte)
       (expires : time.Duration),
       IsCacheMiss (Add now key val expires c).1 = false).
Proof.
  split; [| split; [| split; [| split]]].
  - intros [v|] Hv; [| reflexivity].
    unfold IsCacheMiss, assert_cacheError.
    destruct (methodSet v !! "CacheMiss") as [[r| |]|] eqn:Hm; try reflexivity.
    exfalso. apply (Hv v eq_refl). by exists r.
  - reflexivity.
  - reflexivity.
  - reflexivity.
  - intros c now key val expires.
    destruct (Add_cases c now key val expires)
      as [[_ ->]|[(e & _ & _ & ->)|(e & _ & _ & ->)]]; reflexivity.
Qed.

Lemma IsCacheMiss_false_without_capability_witness :
  (∀ v, Some (errors.New "entry exists") = Some v → ¬ implements_cacheError v)
  ∧ IsCacheMiss (Some (errors.New "entry exists")) = false.
Proof.
  assert (H : ∀ v, Some (errors.New "entry exists") = Some v
                   → ¬ implements_cacheError v).
  { intros v Hv [r Hr]. injection Hv as <-. vm_compute in Hr. discriminate. }
  split; [exact H |].
  exact (proj1 IsCacheMiss_false_without_capability _ H).
Defined.

(** ** [Add] and [Get] *)

(** C2. On a key absent from the cache, [Add] with a positive ttl succeeds
    and stores the value with expiry [now + ttl]; a [Get] that follows before
    the ttl has elapsed (in particular at the same clock reading) succeeds
    with the stored entry. *)
Theorem Add_absent_then_Get (c : memoryCache) (now now' : time.Time)
    (k : string) (v : list byte) (ttl : time.Duration) :
  data c !! k = None → 0 < ttl → now ≤ now' → now' ≤ now + ttl →
  let added := Add now k v ttl c in
  added.1 = None
  ∧ data added.2 = <[k := mkEntry v (now + ttl)]> (data c)
  ∧ Get now' k added.2 = ((Some (mkEntry v (now + ttl)), None), added.2)
  ∧ Value <$> (Get now' k added.2).1.1 = Some v.
Proof.
  intros Hk _ _ Hsoon added. subst added.
  rewrite (Add_absent c now k v ttl Hk). simpl.
  assert (Hget : Get now' k (mkCache (<[k := mkEntry v (now + ttl)]> (data c)))
                 = ((Some (mkEntry v (now + ttl)), None),
                    mkCache (<[k := mkEntry v (now + ttl)]> (data c)))).
  { apply Get_present_live; simpl; [apply lookup_insert_eq | done]. }
  rewrite Hget. done.
Qed.

Lemma Add_absent_then_Get_witness :
  let added := Add 0 "evt1" [x01%byte] (15 * time.Minute) newMemoryCache in
  added.1 = None
  ∧ data added.2
    = <["evt1" := mkEntry [x01%byte] (0 + 15 * time.Minute)]> (data newMemoryCache)
  ∧ Get 0 "evt1" added.2
    = ((Some (mkEntry [x01%byte] (0 + 15 * time.Minute)), None), added.2)
  ∧ Value <$> (Get 0 "evt1" added.2).1.1 = Some [x01%byte].
Proof.
  apply (Add_absent_then_Get newMemoryCache 0 0 "evt1" [x01%byte]
           (15 * time.Minute)).
  - reflexivity.
  - reflexivity.
  - discriminate.
  - discriminate.
Defined.

(** C3. On a key holding an unexpired entry, a second [Add] fails with the
    entry-exists error and leaves the cache as it was; the original entry is
    returned unchanged by a [Get] before its expiry. *)
Theorem Add_present_live_keeps_entry (c : memoryCache) (now : time.Time)
    (k : string) (e : cacheEntry) (v2 : list byte) (ttl2 : time.Duration) :
  data c !! k = Some e → now ≤ Expires e →
  let second := Add now k v2 ttl2 c in
  second.1 = Some (errors.New "entry exists")
  ∧ second.2 = c
  ∧ ∀ now', now' ≤ Expires e → Get now' k second.2 = ((Some e, None), c).
Proof.
  intros Hk Hlive second. subst second.
  rewrite (Add_present_live c now k e v2 ttl2 Hk Hlive). simpl.
  split; [done |]. split; [done |].
  intros now' Hnow'. by apply Get_present_live.
Qed.

Lemma Add_present_live_keeps_entry_witness :
  let c := (Add 0 "evt1" [x01%byte] 900 newMemoryCache).2 in
  let second := Add 5 "evt1" [x02%byte] 900 c in
  second.1 = Some (errors.New "entry exists")
  ∧ second.2 = c
  ∧ ∀ now', now' ≤ Expires (mkEntry [x01%byte] 900) →
      Get now' "evt1" second.2 = ((Some (mkEntry [x01%byte] 900), None), c).
Proof.
  apply (Add_present_live_keeps_entry
           (Add 0 "evt1" [x01%byte] 900 newMemoryCache).2 5 "evt1"
           (mkEntry [x01%byte] 900) [x02%byte] 900).
  - vm_compute. reflexivity.
  - discriminate.
Defined.

(** C4. On a key whose entry has expired, [Add] removes the entry, reports
    the entry-exists error and does not insert the new value; the next [Add]
    on that key succeeds and stores its value. *)
Theorem Add_present_expired_then_Add (c : memoryCache) (now : time.Time)
    (k : string) (e : cacheEntry) (v3 : list byte) (ttl3 : time.Duration) :
  data c !! k = Some e → Expires e < now →
  let third := Add now k v3 ttl3 c in
  third.1 = Some (errors.New "entry exists")
  ∧ data third.2 = delete k (data c)
  ∧ data third.2 !! k = None
  ∧ ∀ (now2 : time.Time) (v4 : list byte) (ttl4 : time.Duration),
      let fourth := Add now2 k v4 ttl4 third.2 in
      fourth.1 = None
      ∧ data fourth.2 = <[k := mkEntry v4 (now2 + ttl4)]> (delete k (data c)).
Proof.
  intros Hk Hold third. subst third.
  rewrite (Add_present_expired c now k e v3 ttl3 Hk Hold). simpl.
  split; [done |]. split; [done |]. split; [apply lookup_delete_eq |].
  intros now2 v4 ttl4.
  rewrite Add_absent; [done |]. simpl. apply lookup_delete_eq.
Qed.

Lemma Add_present_expired_then_Add_witness :
  let c := (Add 0 "evt1" [x01%byte] 900 newMemoryCache).2 in
  let third := Add 901 "evt1" [x03%byte] 900 c in
  third.1 = Some (errors.New "entry exists")
  ∧ data third.2 = delete "evt1" (data c)
  ∧ data third.2 !! "evt1" = None
  ∧ ∀ (now2 : time.Time) (v4 : list byte) (ttl4 : time.Duration),
      let fourth := Add now2 "evt1" v4 ttl4 third.2 in
      fourth.1 = None
      ∧ data fourth.2
        = <["evt1" := mkEntry v4 (now2 + ttl4)]> (delete "evt1" (data c)).
Proof.
  apply (Add_present_expired_then_Add
           (Add 0 "evt1" [x01%byte] 900 newMemoryCache).2 901 "evt1"
           (mkEntry [x01%byte] 900) [x03%byte] 900).
  - vm_compute. reflexivity.
  - reflexivity.
Defined.

(** C5. [Get] on an absent key fails with the cache-miss error; [Get] on a
    key whose entry has expired removes the entry and fails with the
    cache-miss error; and no [Get] returns a nil value together with a nil
    error. *)
Theorem Get_miss (c : memoryCache) (now : time.Time) (k : string) :
  (data c !! k = None →
     Get now k c = ((None, Some cacheMissError), c))
  ∧ (∀ e, data c !! k = Some e → Expires e < now →
       Get now k c = ((None, Some cacheMissError), mkCache (delete k (data c)))
       ∧ data (Get now k c).2 !! k = None)
  ∧ ((Get now k c).1.2 = None → is_Some (Get now k c).1.1).
Proof.
  split; [| split].
  - apply Get_absent.
  - intros e Hk Hold. rewrite (Get_present_expired c now k e Hk Hold).
    split; [done |]. simpl. apply lookup_delete_eq.
  - destruct (Get_cases c now k) as [[_ ->]|[(e & _ & _ & ->)|(e & _ & _ & ->)]];
      simpl; [discriminate | discriminate | eauto].
Qed.

Lemma Get_miss_witness :
  let c := (Add 0 "evt1" [x01%byte] 900 newMemoryCache).2 in
  Get 0 "evt2" c = ((None, Some cacheMissError), c)
  ∧ Get 901 "evt1" c
    = ((None, Some cacheMissError), mkCache (delete "evt1" (data c)))
  ∧ data (Get 901 "evt1" c).2 !! "evt1" = None.
Proof.
  intros c.
  destruct (Get_miss c 0 "evt2") as (Habsent & _ & _).
  destruct (Get_miss c 901 "evt1") as (_ & Hexpired & _).
  split.
  - apply Habsent. vm_compute. reflexivity.
  - apply (Hexpired (mkEntry [x01%byte] 900)).
    + vm_compute. reflexivity.
    + reflexivity.
Defined.

(** C7. A [Get] that returns success leaves the cache exactly as it was: a nil
    error means the key held an unexpired entry, that entry is the value
    returned, and the state after the call is the state before it. *)
Theorem Get_success_unchanged (c : memoryCache) (now : time.Time) (k : string) :
  (Get now k c).1.2 = None →
  (Get now k c).2 = c
  ∧ (Get now k c).1.1 = data c !! k
  ∧ ∃ e, data c !! k = Some e ∧ now ≤ Expires e.
Proof.
  destruct (Get_cases c now k)
    as [[_ ->]|[(e & _ & _ & ->)|(e & Hk & Hlive & ->)]]; simpl.
  - discriminate.
  - discriminate.
  - intros _. rewrite Hk. eauto.
Qed.

Lemma Get_success_unchanged_witness :
  let c := (Add 0 "evt1" [x01%byte] 900 newMemoryCache).2 in
  (Get 5 "evt1" c).2 = c
  ∧ (Get 5 "evt1" c).1.1 = data c !! "evt1"
  ∧ ∃ e, data c !! "evt1" = Some e ∧ 5 ≤ Expires e.
Proof.
  apply (Get_success_unchanged
           (Add 0 "evt1" [x01%byte] 900 newMemoryCache).2 5 "evt1").
  vm_compute. reflexivity.
Defined.

(** ** Expiry *)

(** C6, as stated, fails: once the ttl has elapsed [Get] reports the miss and
    removes the entry, so the [Add] after it finds the key absent and
    succeeds, and it is the [Add] after that one which reports entry-exists. *)
Lemma expired_Get_Add_Add_counterexample :
  let c := (Add 0 "evt1" [x01%byte] (900 * time.Second) newMemoryCache).2 in
  let got := Get (901 * time.Second) "evt1" c in
  let third :=
    Add (901 * time.Second) "evt1" [x03%byte] (900 * time.Second) got.2 in
  let fourth :=
    Add (901 * time.Second) "evt1" [x04%byte] (900 * time.Second) third.2 in
  (got.1.2 = Some cacheMissError
   ∧ third.1 = None
   ∧ fourth.1 = Some (errors.New "entry exists"))
  ∧ ¬ (got.1.2 = Some cacheMissError
       ∧ third.1 = Some (errors.New "entry exists")
       ∧ fourth.1 = None).
Proof.
  split.
  - vm_compute. done.
  - intros (_ & Hthird & _). vm_compute in Hthird. discriminate.
Qed.

(** C6, amended. Once the ttl of the entry under [k] has elapsed, [Get]
    yields the cache-miss error and removes the entry, and an [Add] that
    follows succeeds and stores its value. The entry-exists error for one
    call arises when [Add] itself is the operation that finds the expired
    entry, with no [Get] before it; the [Add] after that succeeds. *)
Theorem expired_Get_then_Add (c : memoryCache) (now : time.Time) (k : string)
    (e : cacheEntry) :
  data c !! k = Some e → Expires e < now →
  (let got := Get now k c in
   got.1 = (None, Some cacheMissError)
   ∧ data got.2 = delete k (data c)
   ∧ ∀ (now2 : time.Time) (v3 : list byte) (ttl3 : time.Duration),
       let third := Add now2 k v3 ttl3 got.2 in
       third.1 = None
       ∧ data third.2 !! k = Some (mkEntry v3 (now2 + ttl3)))
  ∧ (∀ (v3 : list byte) (ttl3 : time.Duration),
       let third := Add now k v3 ttl3 c in
       third.1 = Some (errors.New "entry exists")
       ∧ data third.2 !! k = None
       ∧ ∀ (now2 : time.Time) (v4 : list byte) (ttl4 : time.Duration),
           (Add now2 k v4 ttl4 third.2).1 = None).
Proof.
  intros Hk Hold. split.
  - rewrite (Get_present_expired c now k e Hk Hold). simpl.
    split; [done |]. split; [done |].
    intros now2 v3 ttl3.
    rewrite Add_absent by (simpl; apply lookup_delete_eq). simpl.
    split; [done |]. apply lookup_insert_eq.
  - intros v3 ttl3.
    rewrite (Add_present_expired c now k e v3 ttl3 Hk Hold). simpl.
    split; [done |]. split; [apply lookup_delete_eq |].
    intros now2 v4 ttl4.
    by rewrite Add_absent by (simpl; apply lookup_delete_eq).
Qed.

Lemma expired_Get_then_Add_witness :
  let c := (Add 0 "evt1" [x01%byte] 900 newMemoryCache).2 in
  (Get 901 "evt1" c).1 = (None, Some cacheMissError)
  ∧ (Add 901 "evt1" [x03%byte] 900 (Get 901 "evt1" c).2).1 = None
  ∧ (Add 901 "evt1" [x03%byte] 900 c).1 = Some (errors.New "entry exists").
Proof.
  intros c.
  destruct (expired_Get_then_Add c 901 "evt1" (mkEntry [x01%byte] 900))
    as [(Hgot & _ & Hthen) Hfirst].
  - vm_compute. reflexivity.
  - reflexivity.
  - split; [exact Hgot |]. split.
    + exact (proj1 (Hthen 901 [x03%byte] 900)).
    + exact (proj1 (Hfirst [x03%byte] 900)).
Defined.

(** C8, as stated, fails for [Add]: on an absent key [Add] stores whatever
    expiry [now + ttl] is, and with a negative ttl the key is left holding an
    entry that is expired at the clock reading of that very call. *)
Lemma lazy_expiry_Add_counterexample :
  let after := (Add 0 "evt1" [x01%byte] (-1) newMemoryCache).2 in
  data after !! "evt1" = Some (mkEntry [x01%byte] (-1))
  ∧ ¬ absent_or_live 0 "evt1" after.
Proof.
  split.
  - vm_compute. reflexivity.
  - intros [Habs | (e & He & Hlive)].
    + vm_compute in Habs. discriminate.
    + vm_compute in He. injection He as <-. vm_compute in Hlive.
      discriminate.
Qed.

(** C8, amended. After every [Get] on [k], and after every [Add] on [k] that
    finds the key present or is given a ttl that is not negative, [k] is
    absent or holds an entry unexpired at the clock reading of the call; an
    entry found expired is removed by the call that finds it, whatever the
    ttl. *)
Theorem lazy_expiry (c : memoryCache) (now : time.Time) (k : string) :
  absent_or_live now k (Get now k c).2
  ∧ (∀ (v : list byte) (ttl : time.Duration),
       is_Some (data c !! k) ∨ 0 ≤ ttl →
       absent_or_live now k (Add now k v ttl c).2)
  ∧ (∀ e, data c !! k = Some e → Expires e < now →
       data (Get now k c).2 !! k = None
       ∧ ∀ (v : list byte) (ttl : time.Duration),
           data (Add now k v ttl c).2 !! k = None).
Proof.
  split; [| split].
  - destruct (Get_cases c now k)
      as [[Hk ->]|[(e & _ & _ & ->)|(e & Hk & Hlive & ->)]]; simpl.
    + by left.
    + left. apply lookup_delete_eq.
    + right. exists e. split; [done |]. by apply Before_false.
  - intros v ttl Hpre.
    destruct (Add_cases c now k v ttl)
      as [[Hk ->]|[(e & _ & _ & ->)|(e & Hk & Hlive & ->)]]; simpl.
    + destruct Hpre as [[e He] | Httl]; [congruence |].
      right. exists (mkEntry v (now + ttl)).
      split; [apply lookup_insert_eq |]. apply Before_false. simpl. lia.
    + left. apply lookup_delete_eq.
    + right. exists e. split; [done |]. by apply Before_false.
  - intros e Hk Hold. split.
    + rewrite (Get_present_expired c now k e Hk Hold). apply lookup_delete_eq.
    + intros v ttl. rewrite (Add_present_expired c now k e v ttl Hk Hold).
      apply lookup_delete_eq.
Qed.

Lemma lazy_expiry_witness :
  let c := (Add 0 "evt1" [x01%byte] 900 newMemoryCache).2 in
  absent_or_live 901 "evt1" (Add 901 "evt1" [x02%byte] (-5) c).2
  ∧ absent_or_live 0 "evt2" (Add 0 "evt2" [x02%byte] 0 c).2
  ∧ data (Get 901 "evt1" c).2 !! "evt1" = None.
Proof.
  intros c.
  destruct (lazy_expiry c 901 "evt1") as (_ & Hadd & Hold).
  destruct (lazy_expiry c 0 "evt2") as (_ & Hadd2 & _).
  split; [| split].
  - apply Hadd. left. vm_compute. eauto.
  - apply Hadd2. right. reflexivity.
  - apply (Hold (mkEntry [x01%byte] 900)).
    + vm_compute. reflexivity.
    + reflexivity.
Defined.

(** C10, as stated, fails at ttl = 0: the expiry stored is the clock reading
    of the [Add] itself, which [Before] does not find earlier than that same
    reading, so a [Get] at the same reading returns the entry and removes
    nothing. *)
Lemma Add_zero_ttl_counterexample :
  let added := Add 7 "" [] 0 newMemoryCache in
  added.1 = None
  ∧ Get 7 "" added.2 = ((Some (mkEntry [] 7), None), added.2)
  ∧ ¬ ((Get 7 "" added.2).1.2 = Some cacheMissError
       ∧ data (Get 7 "" added.2).2 !! "" = None).
Proof.
  split; [| split].
  - reflexivity.
  - vm_compute. reflexivity.
  - intros [Hmiss _]. vm_compute in Hmiss. discriminate.
Qed.

(** C10, amended. [Add] validates neither the key nor the ttl: on an absent
    key it succeeds for every key (the empty string too) and every ttl,
    storing expiry [now + ttl]. With ttl < 0 the expiry is before the clock
    reading of the [Add], and every later [Get] yields the cache-miss error
    and removes the entry. With ttl = 0 the expiry is that clock reading
    itself: a [Get] yields the miss and removes the entry only once the clock
    has moved on, and returns the entry while it has not. *)
Theorem Add_unvalidated (c : memoryCache) (now : time.Time) (k : string)
    (v : list byte) (ttl : time.Duration) :
  data c !! k = None →
  let added := Add now k v ttl c in
  added.1 = None
  ∧ data added.2 = <[k := mkEntry v (now + ttl)]> (data c)
  ∧ (∀ now', now ≤ now' → ttl < 0 ∨ (ttl = 0 ∧ now < now') →
       time.Before (now + ttl) now' = true
       ∧ Get now' k added.2 = ((None, Some cacheMissError), c))
  ∧ (ttl = 0 → Get now k added.2 = ((Some (mkEntry v now), None), added.2)).
Proof.
  intros Hk added. subst added.
  rewrite (Add_absent c now k v ttl Hk). simpl.
  split; [done |]. split; [done |]. split.
  - intros now' Hlater Hpast.
    assert (Hold : now + ttl < now') by lia.
    split; [by apply Before_true |].
    rewrite (Get_present_expired _ now' k (mkEntry v (now + ttl)));
      [| simpl; apply lookup_insert_eq | done].
    simpl. rewrite delete_insert_id by done. by destruct c.
  - intros ->. rewrite Z.add_0_r.
    apply Get_present_live; simpl; [apply lookup_insert_eq | lia].
Qed.

Lemma Add_unvalidated_witness :
  let added := Add 7 "" [] (-3) newMemoryCache in
  added.1 = None
  ∧ data added.2 = <["" := mkEntry [] (7 + -3)]> (data newMemoryCache)
  ∧ Get 7 "" added.2 = ((None, Some cacheMissError), newMemoryCache).
Proof.
  intros added.
  destruct (Add_unvalidated newMemoryCache 7 "" [] (-3)) as (H1 & H2 & H3 & _).
  - reflexivity.
  - split; [exact H1 |]. split; [exact H2 |].
    apply (H3 7); [discriminate | left; reflexivity].
Defined.

(** ** The scenario of the specification, run on the embedding *)

Example scenario_evt1 :
  let ttl := 900 * time.Second in
  let first := Add 0 "evt1" [x01%byte] ttl newMemoryCache in
  let got := Get (1 * time.Second) "evt1" first.2 in
  let second := Add (2 * time.Second) "evt1" [x02%byte] ttl got.2 in
  let late := Get (901 * time.Second) "evt1" second.2 in
  first.1 = None
  ∧ got.1 = (Some (mkEntry [x01%byte] ttl), None)
  ∧ second.1 = Some (errors.New "entry exists")
  ∧ late.1 = (None, Some cacheMissError)
  ∧ late.2 = newMemoryCache.
Proof. vm_compute. done. Qed.

(** * Further properties of the cache *)

(** ** One call *)

Lemma Add_other_key (c : memoryCache) (now : time.Time) (k k' : string)
    (v : list byte) (ttl : time.Duration) :
  k' ≠ k → data (Add now k v ttl c).2 !! k' = data c !! k'.
Proof.
  intros Hne.
  destruct (Add_cases c now k v ttl)
    as [[_ ->]|[(e & _ & _ & ->)|(e & _ & _ & ->)]]; simpl.
  - by rewrite lookup_insert_ne.
  - by rewrite lookup_delete_ne.
  - done.
Qed.

Lemma Get_other_key (c : memoryCache) (now : time.Time) (k k' : string) :
  k' ≠ k → data (Get now k c).2 !! k' = data c !! k'.
Proof.
  intros Hne.
  destruct (Get_cases c now k)
    as [[_ ->]|[(e & _ & _ & ->)|(e & _ & _ & ->)]]; simpl.
  - done.
  - by rewrite lookup_delete_ne.
  - done.
Qed.

Lemma perform_other_key (o : call) (c : memoryCache) (k : string) :
  callKey o ≠ k → data (perform o c).2 !! k = data c !! k.
Proof.
  destruct o as [now key val expires | now key]; simpl; intros Hne.
  - rewrite <- (Add_other_key c now key k val expires) by done.
    unfold mbind, mret, cacheM_bind, cacheM_ret.
    by destruct (Add now key val expires c).
  - by apply Get_other_key.
Qed.

Lemma run_cons (o : call) (rest : list call) (c : memoryCache) :
  run (o :: rest) c
  = ((perform o c).1 :: (run rest (perform o c).2).1,
     (run rest (perform o c).2).2).
Proof.
  simpl. unfold mbind, mret, cacheM_bind, cacheM_ret.
  destruct (perform o c) as [r c1]. simpl.
  by destruct (run rest c1).
Qed.

Lemma perform_callAdd (now : time.Time) (key : string) (val : list byte)
    (expires : time.Duration) (c : memoryCache) :
  perform (callAdd now key val expires) c
  = ((None, (Add now key val expires c).1), (Add now key val expires c).2).
Proof.
  simpl. unfold mbind, mret, cacheM_bind, cacheM_ret.
  by destruct (Add now key val expires c).
Qed.

(** X1. [Add] succeeds exactly when the key is absent from the map, expired
    or not; and an [Add] that fails writes nothing: every entry left in the
    map was there before, under the same key. *)
Theorem Add_nil_iff_absent (c : memoryCache) (now : time.Time) (k : string)
    (v : list byte) (ttl : time.Duration) :
  ((Add now k v ttl c).1 = None ↔ data c !! k = None)
  ∧ ((Add now k v ttl c).1 ≠ None → data (Add now k v ttl c).2 ⊆ data c).
Proof.
  destruct (Add_cases c now k v ttl)
    as [[Hk ->]|[(e & Hk & _ & ->)|(e & Hk & _ & ->)]]; simpl.
  - split; [done | congruence].
  - split; [split; [discriminate | congruence] |].
    intros _. apply delete_subseteq.
  - split; [split; [discriminate | congruence] | done].
Qed.

Lemma Add_nil_iff_absent_witness :
  let c := (Add 0 "evt1" [x01%byte] 900 newMemoryCache).2 in
  data (Add 901 "evt1" [x02%byte] 900 c).2 ⊆ data c.
Proof.
  intros c.
  apply (proj2 (Add_nil_iff_absent c 901 "evt1" [x02%byte] 900)).
  vm_compute. discriminate.
Defined.

(** X2. [Get] is idempotent at a fixed clock reading: asking again returns
    the same value and error and changes nothing further. *)
Theorem Get_twice (c : memoryCache) (now : time.Time) (k : string) :
  Get now k (Get now k c).2 = Get now k c.
Proof.
  destruct (Get_cases c now k)
    as [[Hk Hget]|[(e & Hk & Hold & Hget)|(e & Hk & Hlive & Hget)]];
    rewrite Hget; simpl.
  - by rewrite Hget.
  - apply Get_absent. simpl. apply lookup_delete_eq.
  - by rewrite Hget.
Qed.

(** ** Sequences of calls *)

(** X3. Calls on other keys never touch key [k]: whatever is stored under
    [k], expired or not, stays exactly as it is until a call names [k]
    itself. There is no sweep of expired entries. *)
Theorem run_other_keys (calls : list call) (c : memoryCache) (k : string) :
  Forall (λ o, callKey o ≠ k) calls →
  data (run calls c).2 !! k = data c !! k.
Proof.
  intros Hcalls. revert c.
  induction Hcalls as [| o rest Ho _ IH]; intros c.
  - done.
  - rewrite run_cons. simpl. rewrite IH. by apply perform_other_key.
Qed.

Lemma run_other_keys_witness :
  let c := (Add 0 "evt1" [x01%byte] 900 newMemoryCache).2 in
  let calls := [callGet 5000 "evt2"; callAdd 5000 "evt2" [x02%byte] 900;
                callGet 9000 "evt2"; callAdd 9000 "evt3" [x03%byte] 900] in
  data (run calls c).2 !! "evt1" = data c !! "evt1".
Proof.
  intros c calls. apply run_other_keys.
  repeat constructor; simpl; discriminate.
Defined.

(** What one call can leave under a key: the entry that was there, or the
    entry the call itself describes. *)
Lemma perform_provenance (o : call) (c : memoryCache) (k : string)
    (e : cacheEntry) :
  data (perform o c).2 !! k = Some e →
  data c !! k = Some e
  ∨ ∃ now ttl, o = callAdd now k (Value e) ttl ∧ Expires e = now + ttl.
Proof.
  destruct o as [now key val expires | now key].
  - rewrite perform_callAdd. simpl.
    destruct (Add_cases c now key val expires)
      as [[_ ->]|[(e' & _ & _ & ->)|(e' & _ & _ & ->)]]; simpl.
    + rewrite lookup_insert. case_decide as Hkey.
      * intros [= <-]. subst key. right. by exists now, expires.
      * by left.
    + intros He. apply lookup_delete_Some in He. left. tauto.
    + by left.
  - simpl.
    destruct (Get_cases c now key)
      as [[_ ->]|[(e' & _ & _ & ->)|(e' & _ & _ & ->)]]; simpl.
    + by left.
    + intros He. apply lookup_delete_Some in He. left. tauto.
    + by left.
Qed.

(** X4. The cache stores only what it was given: after any sequence of calls,
    an entry found under [k] either was there at the start, unchanged, or was
    put there by an [Add] of the sequence on [k] with that value, and its
    expiry is the clock reading of that [Add] plus its ttl. *)
Theorem run_provenance (calls : list call) (c : memoryCache) (k : string)
    (e : cacheEntry) :
  data (run calls c).2 !! k = Some e →
  data c !! k = Some e
  ∨ ∃ now ttl, callAdd now k (Value e) ttl ∈ calls ∧ Expires e = now + ttl.
Proof.
  revert c. induction calls as [| o rest IH]; intros c.
  - by left.
  - rewrite run_cons. simpl. intros He.
    destruct (IH _ He) as [Hmid | (now & ttl & Hin & Hexp)].
    + destruct (perform_provenance o c k e Hmid)
        as [Hc | (now & ttl & -> & Hexp)]; [by left |].
      right. exists now, ttl. split; [apply list_elem_of_here | done].
    + right. exists now, ttl. split; [by apply list_elem_of_further | done].
Qed.

Lemma run_provenance_witness :
  let calls := [callAdd 0 "evt1" [x01%byte] 900; callGet 5 "evt1";
                callAdd 7 "evt1" [x02%byte] 900] in
  data newMemoryCache !! "evt1" = Some (mkEntry [x01%byte] 900)
  ∨ ∃ now ttl,
      callAdd now "evt1" (Value (mkEntry [x01%byte] 900)) ttl ∈ calls
      ∧ Expires (mkEntry [x01%byte] 900) = now + ttl.
Proof.
  intros calls.
  apply (run_provenance calls newMemoryCache "evt1" (mkEntry [x01%byte] 900)).
  vm_compute. reflexivity.
Defined.

(** A call no later than the expiry of the entry under [k] leaves that entry
    in place, and if the call is on [k] it reports entry-exists ([Add]) or
    returns the entry ([Get]). *)
Lemma perform_within_cooldown (o : call) (c : memoryCache) (k : string)
    (e : cacheEntry) :
  data c !! k = Some e → callTime o ≤ Expires e →
  data (perform o c).2 !! k = Some e
  ∧ (callKey o = k →
     (perform o c).1
     = match o with
       | callAdd _ _ _ _ => (None, Some (errors.New "entry exists"))
       | callGet _ _ => (Some e, None)
       end).
Proof.
  intros Hk Htime.
  destruct (decide (callKey o = k)) as [Heq | Hne].
  - destruct o as [now key val expires | now key];
      simpl in Heq, Htime; subst key.
    + rewrite perform_callAdd.
      rewrite (Add_present_live c now k e val expires Hk Htime). by simpl.
    + simpl. rewrite (Get_present_live c now k e Hk Htime). by simpl.
  - split; [| done]. by rewrite perform_other_key.
Qed.

(** X5. The cool-down holds against every interleaving: while the clock
    readings of the calls do not pass the expiry of the entry under [k], no
    sequence of [Add] and [Get] calls, on [k] or on other keys, replaces or
    removes that entry; every [Add] on [k] in the sequence reports
    entry-exists and every [Get] on [k] returns the entry. *)
Theorem run_within_cooldown (calls : list call) (c : memoryCache) (k : string)
    (e : cacheEntry) :
  data c !! k = Some e →
  Forall (λ o, callTime o ≤ Expires e) calls →
  data (run calls c).2 !! k = Some e
  ∧ ∀ (i : nat) (o : call),
      calls !! i = Some o → callKey o = k →
      (run calls c).1 !! i
      = Some match o with
             | callAdd _ _ _ _ => (None, Some (errors.New "entry exists"))
             | callGet _ _ => (Some e, None)
             end.
Proof.
  intros Hk Hcalls. revert c Hk.
  induction Hcalls as [| o rest Ho _ IH]; intros c Hk.
  - split; [done |]. intros i o Hi. by rewrite lookup_nil in Hi.
  - destruct (perform_within_cooldown o c k e Hk Ho) as [Hk1 Hres].
    destruct (IH _ Hk1) as [Hend Hrest].
    rewrite run_cons. simpl. split; [done |].
    intros [| i] o'; simpl.
    + intros [= <-] Hkey. by rewrite Hres.
    + apply Hrest.
Qed.

Lemma run_within_cooldown_witness :
  let c := (Add 0 "evt1" [x01%byte] 900 newMemoryCache).2 in
  let calls := [callGet 10 "evt1"; callAdd 20 "evt2" [x02%byte] 5;
                callAdd 900 "evt1" [x03%byte] 900; callGet 900 "evt2"] in
  data (run calls c).2 !! "evt1" = Some (mkEntry [x01%byte] 900)
  ∧ (run calls c).1 !! 2%nat
    = Some (None, Some (errors.New "entry exists")).
Proof.
  intros c calls.
  destruct (run_within_cooldown calls c "evt1" (mkEntry [x01%byte] 900))
    as [Hend Hres].
  - vm_compute. reflexivity.
  - repeat constructor; simpl; discriminate.
  - split; [exact Hend |].
    exact (Hres 2%nat (callAdd 900 "evt1" [x03%byte] 900) eq_refl eq_refl).
Defined.

(** * Posting to Slack *)

(** ** Looking a channel up by name *)

Lemma findName_None (n : string) (l : list slack.Channel) :
  findName n l = None ↔ Forall (λ ch, slack.Name ch ≠ n) l.
Proof.
  induction l as [| ch rest IH]; simpl.
  - split; [constructor | done].
  - case_decide as Hname.
    + split; [discriminate |]. intros Hall. by inversion Hall.
    + rewrite IH. split.
      * by constructor.
      * intros Hall. by inversion Hall.
Qed.

Lemma findName_Some (n id : string) (l : list slack.Channel) :
  findName n l = Some id ↔
  ∃ pre ch post,
    l = pre ++ ch :: post
    ∧ Forall (λ ch', slack.Name ch' ≠ n) pre
    ∧ slack.Name ch = n ∧ slack.ID ch = id.
Proof.
  induction l as [| c rest IH]; simpl.
  - split; [discriminate |].
    intros (pre & ch & post & Hl & _). by destruct pre.
  - case_decide as Hname.
    + split.
      * intros [= <-]. exists [], c, rest. by repeat split.
      * intros (pre & ch & post & Hl & Hpre & Hn & Hid).
        destruct pre as [| c' pre]; simpl in Hl; injection Hl as -> ->.
        -- by rewrite Hid.
        -- by inversion Hpre.
    + rewrite IH. split.
      * intros (pre & ch & post & -> & Hpre & Hn & Hid).
        exists (c :: pre), ch, post. repeat split; try done.
        by constructor.
      * intros (pre & ch & post & Hl & Hpre & Hn & Hid).
        destruct pre as [| c' pre]; simpl in Hl; injection Hl as -> ->.
        -- done.
        -- exists pre, ch, post. repeat split; try done. by inversion Hpre.
Qed.

(** X6. An id returned by [channelID] without error is the id of the first
    channel of the list that carries the name, or, when no channel carries
    it, of the first group that does. *)
Theorem channelID_first_match (slackcl : slack.Client) (n id : string) :
  channelID slackcl n = (id, None) →
  ∃ channels,
    slack.GetChannels slackcl = ok channels
    ∧ ((∃ pre ch post,
          channels = pre ++ ch :: post
          ∧ Forall (λ ch', slack.Name ch' ≠ n) pre
          ∧ slack.Name ch = n ∧ slack.ID ch = id)
       ∨ (Forall (λ ch, slack.Name ch ≠ n) channels
          ∧ ∃ groups pre g post,
              slack.GetGroups slackcl = ok groups
              ∧ groups = pre ++ g :: post
              ∧ Forall (λ g', slack.Name g' ≠ n) pre
              ∧ slack.Name g = n ∧ slack.ID g = id)).
Proof.
  unfold channelID.
  destruct (slack.GetChannels slackcl) as [channels | err]; [| discriminate].
  intros H. exists channels. split; [done |].
  destruct (findName n channels) as [id' |] eqn:Hch.
  - injection H as ->. left. by apply findName_Some.
  - right. split; [by apply findName_None |].
    destruct (slack.GetGroups slackcl) as [groups | err]; [| discriminate].
    destruct (findName n groups) as [id' |] eqn:Hgr; [| discriminate].
    injection H as ->. apply findName_Some in Hgr.
    destruct Hgr as (pre & g & post & Hgr). by exists groups, pre, g, post.
Qed.

Lemma channelID_first_match_witness :
  let slackcl :=
    slack.mkClient None
      (ok [slack.mkChannel "C1" "general"; slack.mkChannel "C2" "events";
           slack.mkChannel "C3" "events"])
      (ok [slack.mkChannel "G1" "events"])
      (λ _ _ _, None) in
  ∃ channels,
    slack.GetChannels slackcl = ok channels
    ∧ ((∃ pre ch post,
          channels = pre ++ ch :: post
          ∧ Forall (λ ch', slack.Name ch' ≠ "events") pre
          ∧ slack.Name ch = "events" ∧ slack.ID ch = "C2")
       ∨ (Forall (λ ch, slack.Name ch ≠ "events") channels
          ∧ ∃ groups pre g post,
              slack.GetGroups slackcl = ok groups
              ∧ groups = pre ++ g :: post
              ∧ Forall (λ g', slack.Name g' ≠ "events") pre
              ∧ slack.Name g = "events" ∧ slack.ID g = "C2")).
Proof.
  intros slackcl. apply (channelID_first_match slackcl "events" "C2").
  vm_compute. reflexivity.
Defined.



(** X8. [channelID] never returns an id together with an error; and the
    error is the not-found error exactly when both lists were obtained and
    neither a channel nor a group carries the name. *)
Theorem channelID_error (slackcl : slack.Client) (n : string) :
  ((channelID slackcl n).2 ≠ None → (channelID slackcl n).1 = "")
  ∧ ((channelID slackcl n).2
     = Some (errors.New "failed to find matching channel/group")
     ↔ ∃ channels groups,
         slack.GetChannels slackcl = ok channels
         ∧ slack.GetGroups slackcl = ok groups
         ∧ Forall (λ ch, slack.Name ch ≠ n) channels
         ∧ Forall (λ g, slack.Name g ≠ n) groups).
Proof.
  unfold channelID.
  destruct (slack.GetChannels slackcl) as [channels | err]; simpl.
  2: { split; [done |]. split; [discriminate |].
       by intros (channels & groups & Hch & _). }
  destruct (findName n channels) as [id |] eqn:Hch; simpl.
  { split; [done |]. split; [discriminate |].
    intros (channels' & groups & [= <-] & _ & Hno & _).
    apply findName_None in Hno. congruence. }
  destruct (slack.GetGroups slackcl) as [groups | err]; simpl.
  2: { split; [done |]. split; [discriminate |].
       by intros (channels' & groups & _ & Hgr & _). }
  destruct (findName n groups) as [id |] eqn:Hgr; simpl.
  { split; [done |]. split; [discriminate |].
    intros (channels' & groups' & _ & [= <-] & _ & Hno).
    apply findName_None in Hno. congruence. }
  split; [done |]. split; [| done].
  intros _. exists channels, groups.
  by rewrite <- !findName_None.
Qed.

Lemma channelID_error_witness :
  let slackcl :=
    slack.mkClient None (ok [slack.mkChannel "C1" "general"])
      (failed (errors.New "timeout")) (λ _ _ _, None) in
  (channelID slackcl "events").1 = "".
Proof.
  intros slackcl. apply (proj1 (channelID_error slackcl "events")).
  vm_compute. discriminate.
Defined.

(** ** Posting one message *)

Lemma errors_Wrap_nil (err : error) (msg : string) :
  errors_Wrap err msg = None ↔ err = None.
Proof. destruct err; simpl; split; done. Qed.

(** X9. [postSlack] calls [PostMessage] at most once, with its own text and
    parameters and the id that [channelID] resolved, and only after
    [AuthTest] and the resolution succeeded; otherwise it returns an error
    without calling it. It returns [nil] exactly when all three steps
    succeed. *)
Theorem postSlack_calls (N : string → slack.Client)
    (token channel txt : string) (params : slack.PostMessageParameters)
    (outbox : list sent) :
  let slackcl := N token in
  let chID := (channelID slackcl channel).1 in
  let r := postSlack N token channel txt params outbox in
  (slack.AuthTest slackcl = None ∧ (channelID slackcl channel).2 = None →
     r.2 = outbox ++ [mkSent chID txt params]
     ∧ r.1 = errors_Wrap (slack.PostMessage slackcl chID txt params)
                         "failed to post slack message")
  ∧ (slack.AuthTest slackcl ≠ None ∨ (channelID slackcl channel).2 ≠ None →
     r.2 = outbox ∧ r.1 ≠ None)
  ∧ (r.1 = None ↔
     slack.AuthTest slackcl = None
     ∧ (channelID slackcl channel).2 = None
     ∧ slack.PostMessage slackcl chID txt params = None).
Proof.
  intros slackcl chID r. subst slackcl chID r.
  unfold postSlack, slackClient.
  destruct (slack.AuthTest (N token)) as [aerr |]; simpl.
  { split; [by intros [? _] |]. split; [done |].
    split; [discriminate | by intros [? _]]. }
  destruct (channelID (N token) channel) as [chID [cerr |]]; simpl.
  { split; [by intros [_ ?] |]. split; [done |].
    split; [discriminate | by intros (_ & ? & _)]. }
  split; [done |]. split; [by intros [? | ?] |].
  rewrite errors_Wrap_nil. tauto.
Qed.

Lemma postSlack_calls_witness :
  let N := λ _ : string,
    slack.mkClient None (ok [slack.mkChannel "C1" "general"])
      (ok []) (λ _ _ _, Some (errors.New "rate limited")) in
  let r := postSlack N "token" "general" "hello" (slack.mkParams "bot" []) [] in
  r.2 = [] ++ [mkSent "C1" "hello" (slack.mkParams "bot" [])]
  ∧ r.1 = errors_Wrap (Some (errors.New "rate limited"))
                      "failed to post slack message".
Proof.
  intros N r.
  apply (proj1 (postSlack_calls N "token" "general" "hello"
                  (slack.mkParams "bot" []) [])).
  split; reflexivity.
Defined.

(** The two shapes of the outbox after [postSlack]. *)
Lemma postSlack_outbox (N : string → slack.Client)
    (token channel txt : string) (params : slack.PostMessageParameters)
    (outbox : list sent) :
  ((postSlack N token channel txt params outbox).2 = outbox
   ∧ (postSlack N token channel txt params outbox).1 ≠ None)
  ∨ ∃ chID,
      (postSlack N token channel txt params outbox).2
      = outbox ++ [mkSent chID txt params].
Proof.
  unfold postSlack, slackClient.
  destruct (slack.AuthTest (N token)) as [aerr |]; simpl; [by left |].
  destruct (channelID (N token) channel) as [chID [cerr |]]; simpl;
    [by left |].
  right. by exists chID.
Qed.

(** * The two notifiers *)

Section notifiers.

Context {W : World}.

(** ** [NotifyUpcomingEvents] *)

(** X10. The fields built for the summary message are one per event, in the
    order of the events, each made from the parsed start and end of its
    event; they are built exactly when the start and the end of every event
    parse. *)
Theorem upcomingFields_ok (events : list calendar.Event)
    (fields : list slack.AttachmentField) :
  upcomingFields events = ok fields ↔
  Forall2 (λ event field,
             ∃ t1 t2,
               time_Parse time_RFC3339 (calendar.StartDateTime event) = ok t1
               ∧ time_Parse time_RFC3339 (calendar.EndDateTime event) = ok t2
               ∧ field = upcomingField event t1 t2)
          events fields.
Proof.
  revert fields. induction events as [| event rest IH]; intros fields; simpl.
  - split.
    + intros [= <-]. constructor.
    + intros Hall. by inversion Hall.
  - split.
    + destruct (time_Parse _ (calendar.StartDateTime event)) as [t1 |] eqn:H1;
        [| discriminate].
      destruct (time_Parse _ (calendar.EndDateTime event)) as [t2 |] eqn:H2;
        [| discriminate].
      destruct (upcomingFields rest) as [fs |] eqn:Hrest; [| discriminate].
      intros [= <-]. constructor; [by exists t1, t2 | by apply IH].
    + intros Hall. inversion Hall as [| ? f ? fs (t1 & t2 & H1 & H2 & ->) Hrest];
        subst.
      rewrite H1, H2. apply IH in Hrest. by rewrite Hrest.
Qed.

(** X11. When the fields are not built, the error is that of the first event,
    in the order of the list, whose start or end does not parse, the start
    being tried before the end; the events before it all parse. *)
Theorem upcomingFields_failed (events : list calendar.Event) (err : dynValue) :
  upcomingFields events = failed err →
  ∃ pre event post fields,
    events = pre ++ event :: post
    ∧ upcomingFields pre = ok fields
    ∧ ((∃ perr,
          time_Parse time_RFC3339 (calendar.StartDateTime event) = failed perr
          ∧ err = errors.Wrap perr "failed to parse start date/time")
       ∨ (∃ t1 perr,
            time_Parse time_RFC3339 (calendar.StartDateTime event) = ok t1
            ∧ time_Parse time_RFC3339 (calendar.EndDateTime event)
              = failed perr
            ∧ err = errors.Wrap perr "failed to parse end date/time")).
Proof.
  induction events as [| event rest IH]; simpl; [discriminate |].
  destruct (time_Parse _ (calendar.StartDateTime event)) as [t1 | perr] eqn:H1.
  2: { intros [= <-]. exists [], event, rest, []. split; [done |].
       split; [done |]. left. by exists perr. }
  destruct (time_Parse _ (calendar.EndDateTime event)) as [t2 | perr] eqn:H2.
  2: { intros [= <-]. exists [], event, rest, []. split; [done |].
       split; [done |]. right. by exists t1, perr. }
  destruct (upcomingFields rest) as [fs | err'] eqn:Hrest; [discriminate |].
  intros [= <-].
  destruct (IH eq_refl) as (pre & ev & post & fields & -> & Hpre & Hev).
  exists (event :: pre), ev, post, (upcomingField event t1 t2 :: fields).
  split; [done |]. split; [| done].
  simpl. by rewrite H1, H2, Hpre.
Qed.

Lemma app_singleton_neq {A : Type} (l : list A) (x : A) : l ++ [x] ≠ l.
Proof.
  intros Heq. apply (f_equal length) in Heq.
  rewrite length_app in Heq. simpl in Heq. lia.
Qed.

(** X12. [NotifyUpcomingEvents] is all or nothing: it calls [PostMessage] at
    most once, with an empty text and one attachment, and only when the
    calendar [CalendarName] was listed, the list is not empty and every event
    gave its field. It returns [nil] without calling [PostMessage] only when
    the list of events is empty. *)
Theorem NotifyUpcomingEvents_one_message (b : Bot) (t : time.Time)
    (delta : time.Duration) (outbox : list sent) :
  let r := NotifyUpcomingEvents b t delta outbox in
  (r.2 = outbox
   ∨ ∃ s events fields chID,
       CalendarService b = ok s
       ∧ Events_List s (CalendarName b) (time_Format t time_RFC3339)
           (time_Format (t + delta) time_RFC3339) true (Some "startTime")
         = ok events
       ∧ events ≠ []
       ∧ upcomingFields events = ok fields
       ∧ length fields = length events
       ∧ r.2 = outbox ++ [mkSent chID "" (upcomingParams b t delta fields)])
  ∧ (r.1 = None → r.2 = outbox →
     ∃ s, CalendarService b = ok s
          ∧ Events_List s (CalendarName b) (time_Format t time_RFC3339)
              (time_Format (t + delta) time_RFC3339) true (Some "startTime")
            = ok []).
Proof.
  intros r. subst r. unfold NotifyUpcomingEvents.
  destruct (CalendarService b) as [s | err]; simpl.
  2: { split; [by left | discriminate]. }
  unfold time.Add.
  destruct (Events_List s _ _ _ _ _) as [events | err] eqn:Hlist; simpl.
  2: { split; [by left | discriminate]. }
  case_decide as Hlen.
  { simpl. split; [by left |]. intros _ _. exists s. split; [done |].
    by destruct events. }
  destruct (upcomingFields events) as [fields | err] eqn:Hfields; simpl.
  2: { split; [by left | discriminate]. }
  destruct (postSlack _ _ _ _ _ _) as [perr outbox'] eqn:Hpost. simpl.
  destruct (postSlack_outbox (NewSlackClient 0) (SlackToken b)
              (SlackChannel b) "" (upcomingParams b t delta fields) outbox)
    as [[Hsame Herr] | [chID Hsent]]; rewrite Hpost in *; simpl in *.
  - split; [by left |]. intros Hnil. apply errors_Wrap_nil in Hnil. done.
  - split.
    + right. exists s, events, fields, chID.
      repeat split; try done.
      * intros ->. by apply Hlen.
      * apply upcomingFields_ok in Hfields.
        symmetry. by eapply Forall2_length.
    + intros _ Hsame. rewrite Hsent in Hsame.
      by apply app_singleton_neq in Hsame.
Qed.

End notifiers.

Lemma upcomingFields_ok_witness :
  @upcomingFields demoWorld demoEvents
  = ok [slack.mkField "" "15:04-15:04: <http://cal/evt1|Standup>";
        slack.mkField "" "15:04-15:04: <http://cal/evt2|Review>"].
Proof.
  apply (proj2 (@upcomingFields_ok demoWorld demoEvents _)).
  repeat constructor.
  - exists 20, 20. repeat split; reflexivity.
  - exists 20, 20. repeat split; reflexivity.
Defined.

Lemma upcomingFields_failed_witness :
  let bad := calendar.mkEvent "evt3" "Holiday" "" "http://cal/evt3" "" "" in
  ∃ pre event post fields,
    demoEvents ++ [bad] = pre ++ event :: post
    ∧ @upcomingFields demoWorld pre = ok fields
    ∧ ((∃ perr,
          @time_Parse demoWorld time_RFC3339 (calendar.StartDateTime event)
          = failed perr
          ∧ errors.Wrap (errors.New "cannot parse")
                        "failed to parse start date/time"
            = errors.Wrap perr "failed to parse start date/time")
       ∨ (∃ t1 perr,
            @time_Parse demoWorld time_RFC3339 (calendar.StartDateTime event)
            = ok t1
            ∧ @time_Parse demoWorld time_RFC3339 (calendar.EndDateTime event)
              = failed perr
            ∧ errors.Wrap (errors.New "cannot parse")
                          "failed to parse start date/time"
              = errors.Wrap perr "failed to parse end date/time")).
Proof.
  intros bad.
  apply (@upcomingFields_failed demoWorld (demoEvents ++ [bad])).
  vm_compute. reflexivity.
Defined.

Lemma NotifyUpcomingEvents_one_message_witness :
  ∃ s, @CalendarService demoWorld (demoBot "team") = ok s
       ∧ @Events_List demoWorld s (CalendarName (demoBot "team"))
           (@time_Format demoWorld 0 time_RFC3339)
           (@time_Format demoWorld (0 + 24 * 60 * time.Minute) time_RFC3339)
           true (Some "startTime")
         = ok [].
Proof.
  apply (proj2 (@NotifyUpcomingEvents_one_message demoWorld (demoBot "team") 0
                  (24 * 60 * time.Minute) [])).
  - vm_compute. reflexivity.
  - vm_compute. reflexivity.
Defined.

(** ** [NotifyIndividualEvents] *)

Section individual.

Context {W : World} {St : Type} {C : EventCache St}.

Lemma individualLoop_posts (b : Bot) (now : time.Time)
    (events : list calendar.Event) :
  ∀ (i : nat) (cache : St) (outbox : list sent),
  ∃ posted new,
    sublist posted events
    ∧ Forall2 (λ event m,
                 ∃ t,
                   time_Parse time_RFC3339 (calendar.StartDateTime event)
                   = ok t
                   ∧ now ≤ t
                   ∧ text m = startsIn (t - now)
                   ∧ params m = individualParams b event t)
              posted new
    ∧ (individualLoop b now i events cache outbox).2.2 = outbox ++ new.
Proof.
  induction events as [| event rest IH]; intros i cache outbox.
  - exists [], []. simpl. rewrite app_nil_r. repeat split; constructor.
  - simpl.
    destruct (cache_Get (calendar.Id event) cache) as [[v err] cache1].
    destruct (dispatchGet err) as [| | wrapped].
    + destruct (IH (S i) cache1 outbox) as (posted & new & Hsub & Hall & Hout).
      exists posted, new. split; [by apply sublist_cons | done].
    + destruct (time_Parse _ (calendar.StartDateTime event)) as [t | perr]
        eqn:Hparse.
      2: { exists [], []. simpl. rewrite app_nil_r.
           split; [apply sublist_nil_l |]. split; [constructor | done]. }
      destruct (t - now <? 0) eqn:Hdiff.
      { destruct (cache_Add _ _ _ cache1) as [aerr cache2].
        destruct (IH (S i) cache2 outbox)
          as (posted & new & Hsub & Hall & Hout).
        exists posted, new. split; [by apply sublist_cons | done]. }
      apply Z.ltb_ge in Hdiff.
      destruct (postSlack _ _ _ _ _ outbox) as [perr outbox1] eqn:Hpost.
      destruct (postSlack_outbox (NewSlackClient i) (SlackToken b)
                  (SlackChannel b) (startsIn (t - now))
                  (individualParams b event t) outbox)
        as [[Hsame Herr] | [chID Hsent]]; rewrite Hpost in *; simpl in *.
      * destruct perr as [err' |]; [| done]. subst outbox1.
        exists [], []. simpl. rewrite app_nil_r.
        split; [apply sublist_nil_l |]. split; [constructor | done].
      * assert (Hm : ∃ t',
                   time_Parse time_RFC3339 (calendar.StartDateTime event)
                   = ok t'
                   ∧ now ≤ t'
                   ∧ text (mkSent chID (startsIn (t - now))
                                  (individualParams b event t))
                     = startsIn (t' - now)
                   ∧ params (mkSent chID (startsIn (t - now))
                                    (individualParams b event t))
                     = individualParams b event t').
        { exists t. repeat split; [done | lia]. }
        subst outbox1. destruct perr as [err' |].
        -- exists [event], [mkSent chID (startsIn (t - now))
                                   (individualParams b event t)].
           simpl. split; [apply sublist_skip, sublist_nil_l |].
           split; [| done]. constructor; [done | constructor].
        -- destruct (cache_Add _ _ _ cache1) as [aerr cache2].
           destruct (IH (S i) cache2
                       (outbox ++ [mkSent chID (startsIn (t - now))
                                          (individualParams b event t)]))
             as (posted & new & Hsub & Hall & Hout).
           exists (event :: posted),
                  (mkSent chID (startsIn (t - now))
                          (individualParams b event t) :: new).
           split; [by apply sublist_skip |].
           split; [by constructor |].
           rewrite Hout. by rewrite <- app_assoc.
    + exists [], []. simpl. rewrite app_nil_r.
      split; [apply sublist_nil_l |]. split; [constructor | done].
Qed.

(** X13. Whatever cache the bot is given, [NotifyIndividualEvents] calls
    [PostMessage] only for events of the list it obtained for the calendar
    [primary], at most once for each position of that list and in the order
    of the list, and only for an event whose start parses and is not before
    [now]; the text and the attachment are those built from that event and
    that start. Nothing already in the outbox is changed. *)
Theorem NotifyIndividualEvents_posts (b : Bot) (t : time.Time)
    (delta : time.Duration) (now : time.Time) (cache : St)
    (outbox : list sent) :
  ∃ posted new,
    (NotifyIndividualEvents b t delta now cache outbox).2.2 = outbox ++ new
    ∧ Forall2 (λ event m,
                 ∃ t',
                   time_Parse time_RFC3339 (calendar.StartDateTime event)
                   = ok t'
                   ∧ now ≤ t'
                   ∧ text m = startsIn (t' - now)
                   ∧ params m = individualParams b event t')
              posted new
    ∧ (posted = []
       ∨ ∃ s events,
           CalendarService b = ok s
           ∧ Events_List s "primary" (time_Format t time_RFC3339)
               (time_Format (t + delta) time_RFC3339) true None
             = ok events
           ∧ sublist posted events).
Proof.
  unfold NotifyIndividualEvents.
  destruct (CalendarService b) as [s | err]; simpl.
  2: { exists [], []. rewrite app_nil_r.
       split; [done |]. split; [constructor | by left]. }
  unfold time.Add.
  destruct (Events_List s _ _ _ _ _) as [events | err] eqn:Hlist; simpl.
  2: { exists [], []. rewrite app_nil_r.
       split; [done |]. split; [constructor | by left]. }
  destruct (individualLoop_posts b now events 0%nat cache outbox)
    as (posted & new & Hsub & Hall & Hout).
  exists posted, new. split; [done |]. split; [done |].
  right. by exists s, events.
Qed.

End individual.

(** *** With the in-memory cache *)

Section individual_memory.

Context {W : World} (clock : nat → time.Time).





End individual_memory.


(** With a cache whose miss error does answer [CacheMiss()], the same run
    posts one message per event of the demo world. *)
Example NotifyIndividualEvents_demo_posts :
  (@NotifyIndividualEvents demoWorld unit alwaysMissCache
     (demoBot "primary") 0 (15 * time.Minute) 0 tt []).2.2
  = [mkSent "C1" "This event starts in 5 minutes"
       (@individualParams demoWorld (demoBot "primary")
          (calendar.mkEvent "evt1" "Standup" "" "http://cal/evt1"
             "2016-08-01T10:00:00Z" "2016-08-01T10:15:00Z") 20);
     mkSent "C1" "This event starts in 5 minutes"
       (@individualParams demoWorld (demoBot "primary")
          (calendar.mkEvent "evt2" "Review" "Quarterly" "http://cal/evt2"
             "2016-08-01T11:00:00Z" "2016-08-01T12:00:00Z") 20)].
Proof. vm_compute. reflexivity. Qed.

(** * More on the cache: round trip, independence of keys, one winner *)

(** X15. Adding under an absent key and looking the key up once the entry has
    expired gives a miss and leaves the cache exactly as it was before the
    [Add]. *)
Theorem Add_then_expired_Get (c : memoryCache) (now now' : time.Time)
    (k : string) (v : list byte) (ttl : time.Duration) :
  data c !! k = None → now + ttl < now' →
  Get now' k (Add now k v ttl c).2 = ((None, Some cacheMissError), c).
Proof.
  intros Hk Hold. rewrite (Add_absent c now k v ttl Hk). simpl.
  rewrite (Get_present_expired _ now' k (mkEntry v (now + ttl)));
    [| simpl; apply lookup_insert_eq | done].
  simpl. rewrite delete_insert_id by done. by destruct c.
Qed.

Lemma Add_then_expired_Get_witness :
  Get (901 * time.Second) "evt1"
      (Add 0 "evt1" [x01%byte] (900 * time.Second) newMemoryCache).2
  = ((None, Some cacheMissError), newMemoryCache).
Proof.
  apply (Add_then_expired_Get newMemoryCache 0 (901 * time.Second) "evt1"
           [x01%byte] (900 * time.Second)); reflexivity.
Defined.

(** Each call rewrites the entry under its own key and nothing else. *)
Lemma perform_partial_alter (o : call) (c : memoryCache) :
  perform o c
  = (callResult o (data c !! callKey o),
     mkCache (partial_alter (callEffect o) (callKey o) (data c))).
Proof.
  assert (Hext : partial_alter (callEffect o) (callKey o) (data c)
                 = partial_alter (λ _, callEffect o (data c !! callKey o))
                                 (callKey o) (data c)).
  { apply partial_alter_ext. by intros x <-. }
  rewrite Hext. clear Hext.
  destruct o as [now key val expires | now key]; simpl callKey.
  - rewrite perform_callAdd.
    destruct (Add_cases c now key val expires)
      as [[Hk ->]|[(e & Hk & Hold & ->)|(e & Hk & Hlive & ->)]];
      rewrite Hk; simpl.
    + done.
    + apply Before_true in Hold. by rewrite Hold.
    + apply Before_false in Hlive. rewrite Hlive.
      rewrite <- Hk, partial_alter_self. by destruct c.
  - simpl perform.
    destruct (Get_cases c now key)
      as [[Hk ->]|[(e & Hk & Hold & ->)|(e & Hk & Hlive & ->)]];
      rewrite Hk; simpl.
    + rewrite <- Hk, partial_alter_self. by destruct c.
    + apply Before_true in Hold. by rewrite Hold.
    + apply Before_false in Hlive. rewrite Hlive.
      rewrite <- Hk, partial_alter_self. by destruct c.
Qed.

(** X16. Calls on different keys are independent: in either order they return
    the same results and leave the same cache. *)
Theorem perform_commute (o1 o2 : call) (c : memoryCache) :
  callKey o1 ≠ callKey o2 →
  (perform o2 (perform o1 c).2).2 = (perform o1 (perform o2 c).2).2
  ∧ (perform o2 (perform o1 c).2).1 = (perform o2 c).1
  ∧ (perform o1 (perform o2 c).2).1 = (perform o1 c).1.
Proof.
  intros Hne. rewrite !perform_partial_alter. simpl.
  rewrite !lookup_partial_alter_ne by done.
  split; [| done]. f_equal. by apply partial_alter_partial_alter_ne.
Qed.

Lemma perform_commute_witness :
  let c := (Add 0 "evt1" [x01%byte] 900 newMemoryCache).2 in
  let o1 := callGet 901 "evt1" in
  let o2 := callAdd 901 "evt2" [x02%byte] 900 in
  (perform o2 (perform o1 c).2).2 = (perform o1 (perform o2 c).2).2
  ∧ (perform o2 (perform o1 c).2).1 = (perform o2 c).1
  ∧ (perform o1 (perform o2 c).2).1 = (perform o1 c).1.
Proof.
  intros c o1 o2. apply perform_commute. discriminate.
Defined.

Lemma run_Adds_within_cooldown (rest : list call) (c : memoryCache)
    (k : string) (e : cacheEntry) :
  data c !! k = Some e →
  Forall (λ o, ∃ now' v' ttl',
               o = callAdd now' k v' ttl' ∧ now' ≤ Expires e) rest →
  (run rest c).1
  = replicate (length rest) (None, Some (errors.New "entry exists"))
  ∧ data (run rest c).2 !! k = Some e.
Proof.
  intros Hk Hrest. revert c Hk.
  induction Hrest as [| o rest (now' & v' & ttl' & -> & Htime) _ IH];
    intros c Hk.
  - done.
  - destruct (perform_within_cooldown (callAdd now' k v' ttl') c k e Hk Htime)
      as [Hk1 Hres].
    destruct (IH _ Hk1) as [Hresults Hend].
    rewrite run_cons. cbn [fst snd length replicate].
    rewrite Hres by done. rewrite Hresults. done.
Qed.

(** X17. Of any number of [Add] calls on one key that was absent, taken in
    whatever order the mutex lets them in and with clock readings that do
    not pass the expiry the first one sets, exactly the first succeeds; all
    the others report entry-exists, and the value stored is the first
    one's. *)
Theorem Add_first_wins (c : memoryCache) (now : time.Time) (k : string)
    (v : list byte) (ttl : time.Duration) (rest : list call) :
  data c !! k = None →
  Forall (λ o, ∃ now' v' ttl',
               o = callAdd now' k v' ttl' ∧ now' ≤ now + ttl) rest →
  (run (callAdd now k v ttl :: rest) c).1
  = (None, None)
    :: replicate (length rest) (None, Some (errors.New "entry exists"))
  ∧ data (run (callAdd now k v ttl :: rest) c).2 !! k
    = Some (mkEntry v (now + ttl)).
Proof.
  intros Hk Hrest. rewrite run_cons, perform_callAdd.
  rewrite (Add_absent c now k v ttl Hk). cbn [fst snd].
  destruct (run_Adds_within_cooldown rest
              (mkCache (<[k := mkEntry v (now + ttl)]> (data c))) k
              (mkEntry v (now + ttl))) as [Hresults Hend].
  - simpl. apply lookup_insert_eq.
  - done.
  - by rewrite Hresults.
Qed.

Lemma Add_first_wins_witness :
  let rest := [callAdd 1 "evt1" [x02%byte] 900; callAdd 2 "evt1" [x03%byte] 5;
               callAdd 900 "evt1" [x04%byte] 900] in
  (run (callAdd 0 "evt1" [x01%byte] 900 :: rest) newMemoryCache).1
  = (None, None)
    :: replicate (length rest) (None, Some (errors.New "entry exists"))
  ∧ data (run (callAdd 0 "evt1" [x01%byte] 900 :: rest) newMemoryCache).2
    !! "evt1"
    = Some (mkEntry [x01%byte] (0 + 900)).
Proof.
  intros rest. apply Add_first_wins; [reflexivity |].
  repeat constructor.
  - exists 1, [x02%byte], 900. split; [reflexivity | discriminate].
  - exists 2, [x03%byte], 5. split; [reflexivity | discriminate].
  - exists 900, [x04%byte], 900. split; [reflexivity | discriminate].
Defined.
